(** * Product catalog service (main.go): registry, validation and handlers

    A shallow embedding of the three Go functions that make up the service,
    [validateProduct], [getProduct] and [addProductDetails], over the
    process-global map [products] (a [gmap Z Product]).  The handlers are
    written in a small state monad over the process globals; every call on
    the guard [mu] and every map access is also recorded, in program order,
    in an access log, so that "the registry is not touched" is a statement
    about the model and not a convention.

    Conventions
    - Go [int] is modelled as [Z].  The program performs no arithmetic on
      the fields, only comparisons against constants, so no wrap-around is
      involved; [strconv.Atoi] rejects what does not fit 64 bits.
    - Go [string] is a byte sequence and [len] counts bytes: Rocq's
      [string] (a list of 8-bit [ascii]) with [String.length].
    - [c.Param("productId")] is the handler's input string; the outcome of
      [c.ShouldBindJSON(&p)] (gin's decoder, outside the repository) is the
      second input of [addProductDetails], as a value of [bind_result].
    - Concurrent requests are goroutines that interleave at the steps the
      access log records: the calls on [mu], the map load, and the map
      store, which is split in two so that an unguarded reader could see a
      half-written record.  [mu] is a [sync.RWMutex] with its blocking
      rules. *)

From Stdlib Require Import ZArith String Ascii DecimalString Lia.
From Stdlib Require DecimalPos.
From stdpp Require Import base option list gmap.

Local Open Scope string_scope.
Local Open Scope Z_scope.

(** ** Data model *)

(** [type Product struct] *)
Record Product : Type := mkProduct {
  ProductID : Z;
  SKU : string;
  Manufacturer : string;
  CategoryID : Z;
  Weight : Z;
  SomeOtherID : Z
}.

(** [type ErrorResponse struct] *)
Record ErrorResponse : Type := mkErrorResponse {
  Error : string;
  Message : string;
  Details : string
}.

(** What a handler hands to gin: [c.JSON(code, obj)] or [c.Status(code)]. *)
Inductive payload : Type :=
| JSONError (e : ErrorResponse)
| JSONProduct (p : Product)
| JSONHealth
| NoBody.

Record response : Type := mkResponse {
  status : Z;
  body : payload
}.

(** Constants of [net/http]. *)
Definition StatusOK : Z := 200.
Definition StatusNoContent : Z := 204.
Definition StatusBadRequest : Z := 400.
Definition StatusNotFound : Z := 404.

(** ** strconv

    Go's standard library, outside the repository: the two functions the
    handlers call, after their documented behaviour. *)

Module strconv.

(** Bounds of [int] on a 64-bit target. *)
Definition maxInt : Z := 2 ^ 63 - 1.
Definition minInt : Z := - 2 ^ 63.

Definition digit (a : ascii) : option Z :=
  let n := Z.of_nat (nat_of_ascii a) in
  if (48 <=? n) && (n <=? 57) then Some (n - 48) else None.

Fixpoint digits (s : string) (acc : Z) : option Z :=
  match s with
  | EmptyString => Some acc
  | String a rest =>
      match digit a with
      | Some d => digits rest (acc * 10 + d)
      | None => None
      end
  end.

(** [strconv.Atoi]: an optional sign, then one or more decimal digits;
    [None] stands for a non-nil [err] (syntax or range). *)
Definition Atoi (s : string) : option Z :=
  let '(neg, rest) :=
    match s with
    | String "+"%char r => (false, r)
    | String "-"%char r => (true, r)
    | _ => (false, s)
    end in
  match rest with
  | EmptyString => None
  | _ =>
      match digits rest 0 with
      | Some n =>
          let v := if neg then - n else n in
          if (minInt <=? v) && (v <=? maxInt) then Some v else None
      | None => None
      end
  end.

(** [strconv.Itoa]: decimal, with a leading minus for negatives. *)
Definition Itoa (i : Z) : string := NilZero.string_of_int (Z.to_int i).

End strconv.

(** ** Process globals and the handler monad *)

(** One entry per call on [mu] and per access to [products]. *)
Inductive access : Type :=
| RLock
| RUnlock
| Lock
| Unlock
| MapLoad (k : Z)
| MapStore (k : Z).

(** [var ( products = make(map[int]Product); mu sync.RWMutex )], with the
    log of accesses made so far (oldest first). *)
Record globals : Type := mkGlobals {
  products : gmap Z Product;
  log : list access
}.

Definition init : globals := mkGlobals ∅ [].

Definition M (A : Type) : Type := globals -> A * globals.

Definition ret {A} (a : A) : M A := fun g => (a, g).

Definition bind {A B} (m : M A) (k : A -> M B) : M B :=
  fun g => let '(a, g') := m g in k a g'.

Declare Scope handler_scope.
Delimit Scope handler_scope with handler.
Notation "x <- m ;; k" := (bind m (fun x => k))
  (at level 100, m at next level, right associativity) : handler_scope.
Notation "m ;; k" := (bind m (fun _ => k))
  (at level 100, right associativity) : handler_scope.
Local Open Scope handler_scope.

Definition emit (a : access) : M unit :=
  fun g => (tt, mkGlobals (products g) (log g ++ [a])).

(** [mu.RLock()], [mu.RUnlock()], [mu.Lock()], [mu.Unlock()] *)
Definition mu_RLock : M unit := emit RLock.
Definition mu_RUnlock : M unit := emit RUnlock.
Definition mu_Lock : M unit := emit Lock.
Definition mu_Unlock : M unit := emit Unlock.

(** [product, exists := products[k]] *)
Definition products_load (k : Z) : M (option Product) :=
  fun g => (products g !! k, mkGlobals (products g) (log g ++ [MapLoad k])).

(** [products[k] = p] *)
Definition products_store (k : Z) (p : Product) : M unit :=
  fun g => (tt, mkGlobals (<[k := p]> (products g)) (log g ++ [MapStore k])).

(** ** validateProduct *)

Definition validateProduct (p : Product) : string :=
  if ProductID p <? 1 then
    "product_id must be >= 1"
  else if (String.length (SKU p) =? 0)%nat || (100 <? String.length (SKU p))%nat then
    "sku must be between 1 and 100 characters"
  else if (String.length (Manufacturer p) =? 0)%nat
          || (200 <? String.length (Manufacturer p))%nat then
    "manufacturer must be between 1 and 200 characters"
  else if CategoryID p <? 1 then
    "category_id must be >= 1"
  else if Weight p <? 0 then
    "weight must be >= 0"
  else if SomeOtherID p <? 1 then
    "some_other_id must be >= 1"
  else
    "".

(** ** Handlers *)

Definition JSON (code : Z) (e : ErrorResponse) : M response :=
  ret (mkResponse code (JSONError e)).

(** [func getProduct(c *gin.Context)], on [c.Param("productId")]. *)
Definition getProduct (param : string) : M response :=
  match strconv.Atoi param with
  | None =>
      JSON StatusBadRequest
        (mkErrorResponse "INVALID_INPUT" "Invalid product ID"
           "Product ID must be a positive integer")
  | Some productID =>
      if productID <? 1 then
        JSON StatusBadRequest
          (mkErrorResponse "INVALID_INPUT" "Invalid product ID"
             "Product ID must be a positive integer")
      else
        mu_RLock ;;
        found <- products_load productID ;;
        mu_RUnlock ;;
        match found with
        | None =>
            JSON StatusNotFound
              (mkErrorResponse "NOT_FOUND" "Product not found"
                 (String.append "No product found with ID " (strconv.Itoa productID)))
        | Some product => ret (mkResponse StatusOK (JSONProduct product))
        end
  end.

(** Outcome of [c.ShouldBindJSON(&p)]: the decoded record, or [err.Error()]. *)
Inductive bind_result : Type :=
| BindOk (p : Product)
| BindErr (msg : string).

(** [func addProductDetails(c *gin.Context)], on [c.Param("productId")] and
    the decoded request body. *)
Definition addProductDetails (param : string) (decoded : bind_result) : M response :=
  match strconv.Atoi param with
  | None =>
      JSON StatusBadRequest
        (mkErrorResponse "INVALID_INPUT" "Invalid product ID in path"
           "Product ID must be a positive integer")
  | Some productID =>
      if productID <? 1 then
        JSON StatusBadRequest
          (mkErrorResponse "INVALID_INPUT" "Invalid product ID in path"
             "Product ID must be a positive integer")
      else
        match decoded with
        | BindErr msg =>
            JSON StatusBadRequest
              (mkErrorResponse "INVALID_INPUT" "Invalid request body" msg)
        | BindOk p =>
            let err := validateProduct p in
            if negb (String.eqb err "") then
              JSON StatusBadRequest
                (mkErrorResponse "INVALID_INPUT" "Validation failed" err)
            else if negb (ProductID p =? productID) then
              JSON StatusBadRequest
                (mkErrorResponse "INVALID_INPUT" "Product ID mismatch"
                   "Path product ID does not match body product_id")
            else
              mu_Lock ;;
              products_store productID p ;;
              mu_Unlock ;;
              ret (mkResponse StatusNoContent NoBody)
        end
  end.

(** The [/health] route of [main]. *)
Definition health : M response := ret (mkResponse StatusOK JSONHealth).

(** ** The router, and sequential histories *)

(** The three routes registered in [main]. *)
Inductive request : Type :=
| GET_product (param : string)
| POST_details (param : string) (decoded : bind_result)
| GET_health.

Definition serve (r : request) : M response :=
  match r with
  | GET_product param => getProduct param
  | POST_details param decoded => addProductDetails param decoded
  | GET_health => health
  end.

(** Serving a list of requests one after the other. *)
Fixpoint run (rs : list request) : M (list response) :=
  match rs with
  | [] => ret []
  | r :: rest =>
      resp <- serve r ;;
      resps <- run rest ;;
      ret (resp :: resps)
  end.

(** ** The field constraints, as the data model states them *)

(** The six constraints of the Product schema. *)
Record valid_product (p : Product) : Prop := mkValid {
  valid_product_id : 1 <= ProductID p;
  valid_sku : (1 <= String.length (SKU p) <= 100)%nat;
  valid_manufacturer : (1 <= String.length (Manufacturer p) <= 200)%nat;
  valid_category_id : 1 <= CategoryID p;
  valid_weight : 0 <= Weight p;
  valid_some_other_id : 1 <= SomeOtherID p
}.

(** Every stored record satisfies the six constraints. *)
Definition registry_valid (m : gmap Z Product) : Prop :=
  forall k p, m !! k = Some p -> valid_product p.

(** Every record is stored under its own [product_id], a positive key. *)
Definition keys_agree (m : gmap Z Product) : Prop :=
  forall k p, m !! k = Some p -> ProductID p = k /\ 1 <= k.

(** The validation table of the specification: the rules, their order,
    what each demands and the message each reports. *)
Inductive rule : Type :=
| rule_product_id
| rule_sku
| rule_manufacturer
| rule_category_id
| rule_weight
| rule_some_other_id.

Definition rule_order : list rule :=
  [rule_product_id; rule_sku; rule_manufacturer;
   rule_category_id; rule_weight; rule_some_other_id].

Definition passes (r : rule) (p : Product) : bool :=
  match r with
  | rule_product_id => 1 <=? ProductID p
  | rule_sku =>
      ((1 <=? String.length (SKU p)) && (String.length (SKU p) <=? 100))%nat
  | rule_manufacturer =>
      ((1 <=? String.length (Manufacturer p))
       && (String.length (Manufacturer p) <=? 200))%nat
  | rule_category_id => 1 <=? CategoryID p
  | rule_weight => 0 <=? Weight p
  | rule_some_other_id => 1 <=? SomeOtherID p
  end.

Definition message (r : rule) : string :=
  match r with
  | rule_product_id => "product_id must be >= 1"
  | rule_sku => "sku must be between 1 and 100 characters"
  | rule_manufacturer => "manufacturer must be between 1 and 200 characters"
  | rule_category_id => "category_id must be >= 1"
  | rule_weight => "weight must be >= 0"
  | rule_some_other_id => "some_other_id must be >= 1"
  end.

(** The first rule of [rule_order] that the candidate fails, if any. *)
Definition first_failing (p : Product) : option rule :=
  List.find (fun r => negb (passes r p)) rule_order.

(** Fail-fast report: the message of the first failing rule, else empty. *)
Definition report (p : Product) : string :=
  match first_failing p with
  | Some r => message r
  | None => ""
  end.

(** The error code of a response, when it carries an [ErrorResponse]. *)
Definition error_code (r : response) : option string :=
  match body r with
  | JSONError e => Some (Error e)
  | _ => None
  end.

(** The responses of the two handlers. *)
Definition bad_id_get : response :=
  mkResponse StatusBadRequest
    (JSONError (mkErrorResponse "INVALID_INPUT" "Invalid product ID"
                  "Product ID must be a positive integer")).

Definition bad_id_post : response :=
  mkResponse StatusBadRequest
    (JSONError (mkErrorResponse "INVALID_INPUT" "Invalid product ID in path"
                  "Product ID must be a positive integer")).

Definition bad_body (msg : string) : response :=
  mkResponse StatusBadRequest
    (JSONError (mkErrorResponse "INVALID_INPUT" "Invalid request body" msg)).

Definition validation_failed (detail : string) : response :=
  mkResponse StatusBadRequest
    (JSONError (mkErrorResponse "INVALID_INPUT" "Validation failed" detail)).

Definition id_mismatch : response :=
  mkResponse StatusBadRequest
    (JSONError (mkErrorResponse "INVALID_INPUT" "Product ID mismatch"
                  "Path product ID does not match body product_id")).

Definition not_found (id : Z) : response :=
  mkResponse StatusNotFound
    (JSONError (mkErrorResponse "NOT_FOUND" "Product not found"
                  (String.append "No product found with ID " (strconv.Itoa id)))).

Definition no_content : response := mkResponse StatusNoContent NoBody.

Definition ok_product (p : Product) : response :=
  mkResponse StatusOK (JSONProduct p).

(** The globals after one guarded read, and after one guarded write. *)
Definition after_read (id : Z) (g : globals) : globals :=
  mkGlobals (products g) (log g ++ [RLock; MapLoad id; RUnlock]).

Definition after_write (id : Z) (p : Product) (g : globals) : globals :=
  mkGlobals (<[id := p]> (products g)) (log g ++ [Lock; MapStore id; Unlock]).

(** A path parameter that [getProduct] and [addProductDetails] refuse. *)
Definition rejected_param (param : string) : Prop :=
  strconv.Atoi param = None \/
  exists id, strconv.Atoi param = Some id /\ id < 1.

(** The two ways a call of [addProductDetails] can end. *)
Inductive put_outcome (param : string) (decoded : bind_result) (g : globals)
  : response -> globals -> Prop :=
| put_committed id p :
    strconv.Atoi param = Some id -> 1 <= id ->
    decoded = BindOk p -> valid_product p -> ProductID p = id ->
    put_outcome param decoded g no_content (after_write id p g)
| put_refused r :
    status r = StatusBadRequest -> error_code r = Some "INVALID_INPUT" ->
    put_outcome param decoded g r g.

(** The shape of an access log in which every map access is bracketed by
    the guard: a sequence of blocks, each a map load between [RLock] and
    [RUnlock] or a map store between [Lock] and [Unlock]. *)
Fixpoint well_guarded (l : list access) : bool :=
  match l with
  | [] => true
  | RLock :: MapLoad _ :: RUnlock :: rest => well_guarded rest
  | Lock :: MapStore _ :: Unlock :: rest => well_guarded rest
  | _ => false
  end.

(** Every key of the map is a positive [int]. *)
Definition keys_in_range (m : gmap Z Product) : Prop :=
  forall k p, m !! k = Some p -> 1 <= k <= strconv.maxInt.

(** ** Concurrent requests *)

(** What a map slot holds while requests run concurrently: a complete
    record, or a record caught in the middle of an assignment. *)
Inductive cell : Type :=
| Torn
| Complete (p : Product).

(** The atomic steps of a handler on the shared state.  The assignment
    [products[k] = p] is not atomic: it is two steps, after the first of
    which the slot is torn. *)
Inductive action : Type :=
| ARLock
| ARUnlock
| ALock
| AUnlock
| ALoad (k : Z)
| AStoreBegin (k : Z)
| AStoreEnd (k : Z) (p : Product).

(** The steps behind one entry of a handler's access log; [m] gives the
    record a store writes. *)
Definition compile (m : gmap Z Product) (a : access) : list action :=
  match a with
  | RLock => [ARLock]
  | RUnlock => [ARUnlock]
  | Lock => [ALock]
  | Unlock => [AUnlock]
  | MapLoad k => [ALoad k]
  | MapStore k =>
      match m !! k with
      | Some p => [AStoreBegin k; AStoreEnd k p]
      | None => []
      end
  end.

(** The shared-state steps of the handler of [r], read off its access
    log.  What precedes the guard (path check, decoding, validation) is
    local to the handler, and the log does not depend on the registry the
    handler starts from ([serve_accesses]). *)
Definition program (r : request) : list action :=
  concat (map (compile (products (snd (serve r init)))) (log (snd (serve r init)))).

(** One goroutine: the steps it still has to take, and what its loads
    returned so far. *)
Record thread : Type := mkThread {
  code : list action;
  seen : list (Z * option cell)
}.

(** [sync.RWMutex], by its holders: the goroutine holding it for writing,
    and those holding it for reading. *)
Record RWMutex : Type := mkRWMutex {
  writer : option nat;
  readers : gset nat
}.

(** The state shared by the goroutines. *)
Record shared : Type := mkShared {
  cells : gmap Z cell;
  guard : RWMutex;
  pool : list thread
}.

(** [RLock] blocks while a writer holds the mutex, [Lock] while anyone
    holds it; nothing else blocks.  (Go also makes new readers wait behind a
    waiting writer, which only removes interleavings.) *)
Definition enabled (a : action) (mu : RWMutex) : bool :=
  match a with
  | ARLock => bool_decide (writer mu = None)
  | ALock => bool_decide (writer mu = None) && bool_decide (readers mu = ∅)
  | _ => true
  end.

Definition guard_after (i : nat) (a : action) (mu : RWMutex) : RWMutex :=
  match a with
  | ARLock => mkRWMutex (writer mu) ({[i]} ∪ readers mu)
  | ARUnlock => mkRWMutex (writer mu) (readers mu ∖ {[i]})
  | ALock => mkRWMutex (Some i) (readers mu)
  | AUnlock => mkRWMutex None (readers mu)
  | _ => mu
  end.

Definition cells_after (a : action) (m : gmap Z cell) : gmap Z cell :=
  match a with
  | AStoreBegin k => <[k := Torn]> m
  | AStoreEnd k p => <[k := Complete p]> m
  | _ => m
  end.

Definition seen_after (a : action) (m : gmap Z cell) (obs : list (Z * option cell))
  : list (Z * option cell) :=
  match a with
  | ALoad k => obs ++ [(k, m !! k)]
  | _ => obs
  end.

(** Thread [i] takes its next step [a]. *)
Definition fire (i : nat) (a : action) (rest : list action)
    (obs : list (Z * option cell)) (s : shared) : shared :=
  mkShared (cells_after a (cells s)) (guard_after i a (guard s))
    (<[i := mkThread rest (seen_after a (cells s) obs)]> (pool s)).

(** The scheduler picks thread [i]: it takes its next step if it has one
    and is not blocked. *)
Definition step (i : nat) (s : shared) : shared :=
  match pool s !! i with
  | Some t =>
      match code t with
      | a :: rest => if enabled a (guard s) then fire i a rest (seen t) s else s
      | [] => s
      end
  | None => s
  end.

(** An interleaving is a list of scheduler picks. *)
Definition exec (sched : list nat) (s : shared) : shared :=
  foldl (fun s i => step i s) s sched.

(** A fresh process in which the given goroutines have just started. *)
Definition start (codes : list (list action)) : shared :=
  mkShared ∅ (mkRWMutex None ∅) ((fun c => mkThread c []) <$> codes).

(** One goroutine per request, all started together. *)
Definition spawn (rs : list request) : shared := start (program <$> rs).

(** The same programs with every call on the guard taken out. *)
Definition is_map_access (a : action) : bool :=
  match a with
  | ALoad _ | AStoreBegin _ | AStoreEnd _ _ => true
  | _ => false
  end.

Definition unguarded (c : list action) : list action := List.filter is_map_access c.


(** [p] is a record that one of the requests commits under key [k]. *)
Definition committed (rs : list request) (k : Z) (p : Product) : Prop :=
  valid_product p /\ ProductID p = k /\
  exists param, POST_details param (BindOk p) ∈ rs /\ strconv.Atoi param = Some k.

(** The programs of the handlers and what is left of them as they run: the
    guard is taken, one map operation is done, the guard is released. *)
Inductive wf_code (rs : list request) : list action -> Prop :=
| wf_done : wf_code rs []
| wf_get k : wf_code rs [ARLock; ALoad k; ARUnlock]
| wf_loading k : wf_code rs [ALoad k; ARUnlock]
| wf_releasing : wf_code rs [ARUnlock]
| wf_put k p :
    committed rs k p -> wf_code rs [ALock; AStoreBegin k; AStoreEnd k p; AUnlock]
| wf_storing k p :
    committed rs k p -> wf_code rs [AStoreBegin k; AStoreEnd k p; AUnlock]
| wf_finishing k p : committed rs k p -> wf_code rs [AStoreEnd k p; AUnlock]
| wf_unlocking : wf_code rs [AUnlock].

(** By its remaining code: the thread holds the mutex for reading. *)
Definition reading (c : list action) : bool :=
  match c with
  | ALoad _ :: _ | ARUnlock :: _ => true
  | _ => false
  end.

(** By its remaining code: the thread holds the mutex for writing. *)
Definition writing (c : list action) : bool :=
  match c with
  | AStoreBegin _ :: _ | AStoreEnd _ _ :: _ | AUnlock :: _ => true
  | _ => false
  end.

(** A torn slot belongs to the writer that is about to complete it; a
    complete slot holds a committed record. *)
Definition sound_cell (rs : list request) (s : shared) (k : Z) (c : cell) : Prop :=
  match c with
  | Torn =>
      exists i t p rest,
        writer (guard s) = Some i /\ pool s !! i = Some t /\
        code t = AStoreEnd k p :: rest
  | Complete p => committed rs k p
  end.

(** What a load may have returned. *)
Definition sound_seen (rs : list request) (k : Z) (o : option cell) : Prop :=
  match o with
  | None => True
  | Some Torn => False
  | Some (Complete p) => committed rs k p
  end.

(** The invariant of concurrent executions. *)
Record Inv (rs : list request) (s : shared) : Prop := mkInv {
  inv_code : forall i t, pool s !! i = Some t -> wf_code rs (code t);
  inv_read : forall i t, pool s !! i = Some t ->
      (reading (code t) = true <-> i ∈ readers (guard s));
  inv_write : forall i t, pool s !! i = Some t ->
      (writing (code t) = true <-> writer (guard s) = Some i);
  inv_excl : forall i, writer (guard s) = Some i -> readers (guard s) = ∅;
  inv_cells : forall k c, cells s !! k = Some c -> sound_cell rs s k c;
  inv_seen : forall i t k o, pool s !! i = Some t -> (k, o) ∈ seen t ->
      sound_seen rs k o
}.

(** The premises of a step of thread [i]: the invariant, the thread's
    code, and its first action enabled. *)
Definition fires (rs : list request) (i : nat) (a : action) (rest : list action)
    (obs : list (Z * option cell)) (s : shared) : Prop :=
  Inv rs s /\ pool s !! i = Some (mkThread (a :: rest) obs) /\
  enabled a (guard s) = true.

(** An example record. *)
Definition acme42 : Product := mkProduct 42 "ABC" "Acme" 1 500 1.

(** A writer and two readers. *)
Definition rs0 : list request :=
  [POST_details "42" (BindOk acme42); GET_product "42"; GET_product "7"].

(** * Properties *)

(** ** Concrete runs *)

Example Atoi_examples :
  strconv.Atoi "42" = Some 42 /\ strconv.Atoi "+042" = Some 42 /\
  strconv.Atoi "-5" = Some (-5) /\ strconv.Atoi "0" = Some 0 /\
  strconv.Atoi "" = None /\ strconv.Atoi "-" = None /\
  strconv.Atoi "abc" = None /\ strconv.Atoi "4 2" = None /\
  strconv.Atoi "9223372036854775807" = Some strconv.maxInt /\
  strconv.Atoi "9223372036854775808" = None.
Proof. repeat split; reflexivity. Qed.

Example scenario1 :
  let '(r1, g1) := addProductDetails "42" (BindOk acme42) init in
  let '(r2, g2) := getProduct "42" g1 in
  r1 = no_content /\ r2 = ok_product acme42 /\
  log g2 = [Lock; MapStore 42; Unlock; RLock; MapLoad 42; RUnlock].
Proof. vm_compute. repeat split; reflexivity. Qed.

Example scenario2 : getProduct "-5" init = (bad_id_get, init).
Proof. reflexivity. Qed.

Example scenario3 :
  fst (getProduct "9999" init)
  = mkResponse 404 (JSONError (mkErrorResponse "NOT_FOUND" "Product not found"
                                 "No product found with ID 9999")).
Proof. reflexivity. Qed.

Example scenario4 :
  let '(r1, g1) :=
    addProductDetails "7" (BindOk (mkProduct 8 "ABC" "Acme" 1 500 1)) init in
  r1 = id_mismatch /\ g1 = init /\ fst (getProduct "7" g1) = not_found 7.
Proof. vm_compute. repeat split; reflexivity. Qed.

Example scenario5 :
  addProductDetails "1" (BindOk (mkProduct 1 "" "Acme" 1 0 1)) init
  = (validation_failed "sku must be between 1 and 100 characters", init).
Proof. reflexivity. Qed.

Example malformed_body :
  addProductDetails "1" (BindErr "unexpected EOF") init
  = (bad_body "unexpected EOF", init).
Proof. reflexivity. Qed.

(** ** validateProduct *)

Ltac bool_cases :=
  repeat match goal with
  | |- context [Z.ltb ?a ?b] => destruct (Z.ltb_spec a b)
  | |- context [Z.leb ?a ?b] => destruct (Z.leb_spec a b)
  | |- context [Nat.eqb ?a ?b] => destruct (Nat.eqb_spec a b)
  | |- context [Nat.ltb ?a ?b] => destruct (Nat.ltb_spec a b)
  | |- context [Nat.leb ?a ?b] => destruct (Nat.leb_spec a b)
  end; cbn [List.find negb andb orb].

Lemma validateProduct_report p : validateProduct p = report p.
Proof.
  unfold validateProduct, report, first_failing, rule_order.
  cbn [List.find passes]. bool_cases; try reflexivity; lia.
Qed.

Lemma message_nonempty r : message r <> "".
Proof. destruct r; discriminate. Qed.

Lemma validateProduct_valid p : validateProduct p = "" <-> valid_product p.
Proof.
  split.
  - unfold validateProduct. bool_cases; try discriminate.
    intros _. constructor; lia.
  - intros [? ? ? ? ? ?]. unfold validateProduct.
    bool_cases; try reflexivity; lia.
Qed.

(** ** The handlers, path by path *)

Lemma rejected_or_accepted param :
  rejected_param param \/ exists id, strconv.Atoi param = Some id /\ 1 <= id.
Proof.
  unfold rejected_param. destruct (strconv.Atoi param) as [id|]; [|by left; left].
  destruct (Z.lt_ge_cases id 1); [left; right | right]; eauto.
Qed.

Lemma getProduct_rejected param g :
  rejected_param param -> getProduct param g = (bad_id_get, g).
Proof.
  intros [H | (id & H & Hlt)]; unfold getProduct; rewrite H; [reflexivity|].
  destruct (Z.ltb_spec id 1); [reflexivity | lia].
Qed.

Lemma getProduct_accepted param id g :
  strconv.Atoi param = Some id -> 1 <= id ->
  getProduct param g
  = (match products g !! id with
     | Some p => ok_product p
     | None => not_found id
     end, after_read id g).
Proof.
  intros H Hid. unfold getProduct. rewrite H.
  destruct (Z.ltb_spec id 1); [lia|].
  unfold bind, mu_RLock, mu_RUnlock, emit, products_load, after_read. simpl.
  rewrite <- !app_assoc. simpl.
  destruct (products g !! id); reflexivity.
Qed.

Lemma addProductDetails_rejected param decoded g :
  rejected_param param -> addProductDetails param decoded g = (bad_id_post, g).
Proof.
  intros [H | (id & H & Hlt)]; unfold addProductDetails; rewrite H; [reflexivity|].
  destruct (Z.ltb_spec id 1); [reflexivity | lia].
Qed.

Lemma addProductDetails_accepted param id decoded g :
  strconv.Atoi param = Some id -> 1 <= id ->
  addProductDetails param decoded g
  = match decoded with
    | BindErr msg => (bad_body msg, g)
    | BindOk p =>
        if String.eqb (validateProduct p) "" then
          if ProductID p =? id then (no_content, after_write id p g)
          else (id_mismatch, g)
        else (validation_failed (validateProduct p), g)
    end.
Proof.
  intros H Hid. unfold addProductDetails. rewrite H.
  destruct (Z.ltb_spec id 1); [lia|].
  destruct decoded as [p|msg]; [|reflexivity].
  destruct (String.eqb (validateProduct p) ""); [|reflexivity].
  destruct (ProductID p =? id); [|reflexivity].
  unfold bind, mu_Lock, mu_Unlock, emit, products_store, after_write. simpl.
  rewrite <- !app_assoc. reflexivity.
Qed.

Lemma addProductDetails_outcome param decoded g :
  put_outcome param decoded g
    (fst (addProductDetails param decoded g))
    (snd (addProductDetails param decoded g)).
Proof.
  destruct (rejected_or_accepted param) as [Hrej | (id & H & Hid)].
  - rewrite (addProductDetails_rejected _ _ _ Hrej). by apply put_refused.
  - rewrite (addProductDetails_accepted _ _ _ _ H Hid).
    destruct decoded as [p|msg]; [|by apply put_refused].
    destruct (String.eqb_spec (validateProduct p) "") as [Hv|]; [|by apply put_refused].
    destruct (Z.eqb_spec (ProductID p) id); [|by apply put_refused].
    simpl. eapply put_committed; eauto. by apply validateProduct_valid.
Qed.

Lemma getProduct_products param g :
  products (snd (getProduct param g)) = products g.
Proof.
  destruct (rejected_or_accepted param) as [Hrej | (id & H & Hid)].
  - by rewrite (getProduct_rejected _ _ Hrej).
  - by rewrite (getProduct_accepted _ _ _ H Hid).
Qed.

(** ** Invariants of the registry, one request at a time *)

Lemma registry_valid_init : registry_valid (products init).
Proof. intros k p. simpl. by rewrite lookup_empty. Qed.

Lemma keys_agree_init : keys_agree (products init).
Proof. intros k p. simpl. by rewrite lookup_empty. Qed.

Lemma serve_products r g :
  products (snd (serve r g)) = products g \/
  exists param p,
    r = POST_details param (BindOk p) /\
    strconv.Atoi param = Some (ProductID p) /\
    valid_product p /\
    fst (serve r g) = no_content /\
    products (snd (serve r g)) = <[ProductID p := p]> (products g).
Proof.
  destruct r as [param | param decoded |]; simpl.
  - left. apply getProduct_products.
  - pose proof (addProductDetails_outcome param decoded g) as Hout.
    destruct (addProductDetails param decoded g) as [r g']. simpl in *.
    destruct Hout as [id p H Hid -> Hv <- | r _ _]; [right | by left].
    by exists param, p.
  - by left.
Qed.

Lemma serve_preserves_valid r g :
  registry_valid (products g) -> registry_valid (products (snd (serve r g))).
Proof.
  intros Hinv.
  destruct (serve_products r g) as [-> | (param & p & _ & _ & Hv & _ & ->)]; [done|].
  intros k q. rewrite lookup_insert. case_decide; [|by apply Hinv].
  by intros [= <-].
Qed.

Lemma serve_preserves_keys r g :
  keys_agree (products g) -> keys_agree (products (snd (serve r g))).
Proof.
  intros Hinv.
  destruct (serve_products r g) as [-> | (param & p & _ & _ & Hv & _ & ->)]; [done|].
  intros k q. rewrite lookup_insert. case_decide; [|by apply Hinv].
  intros [= <-]. subst k. split; [done | apply Hv].
Qed.

Lemma run_cons r rs g :
  run (r :: rs) g
  = (fst (serve r g) :: fst (run rs (snd (serve r g))),
     snd (run rs (snd (serve r g)))).
Proof.
  simpl. unfold bind, ret.
  destruct (serve r g) as [resp g1]. simpl.
  by destruct (run rs g1).
Qed.

Lemma run_invariant (P : gmap Z Product -> Prop) :
  (forall r g, P (products g) -> P (products (snd (serve r g)))) ->
  forall rs g, P (products g) -> P (products (snd (run rs g))).
Proof.
  intros Hstep rs. induction rs as [|r rs IH]; intros g Hg; [done|].
  rewrite run_cons. simpl. apply IH, Hstep, Hg.
Qed.

Lemma first_failing_message p r :
  first_failing p = Some r -> validateProduct p = message r.
Proof. intros H. by rewrite validateProduct_report; unfold report; rewrite H. Qed.

(** A history in which no POST to [id] was answered 204 leaves [id] absent. *)
Lemma run_absent id rs g :
  products g !! id = None ->
  (forall param decoded r,
      (POST_details param decoded, r) ∈ zip rs (fst (run rs g)) ->
      strconv.Atoi param = Some id -> status r <> StatusNoContent) ->
  products (snd (run rs g)) !! id = None.
Proof.
  revert g. induction rs as [|rq rs IH]; intros g Hg Hno; [done|].
  rewrite run_cons in *. simpl in *. apply IH.
  - destruct (serve_products rq g)
      as [-> | (param & p & -> & Hatoi & _ & Hresp & ->)]; [done|].
    rewrite lookup_insert_ne; [done|]. intros Heq.
    apply (Hno param (BindOk p) no_content); [|by rewrite Hatoi, Heq|done].
    rewrite Hresp. apply elem_of_cons. by left.
  - intros param decoded r Hin. apply (Hno param decoded r).
    apply elem_of_cons. by right.
Qed.

(** * The claims *)

(** C1. Write-then-read: for every valid Product [p], a Put at [p]'s own id
    succeeds (204, no content) and a Get of that id made right after it
    answers 200 with exactly [p].  The path strings of the two requests
    need not be the same text, only denote [p.product_id]. *)
Theorem put_then_get p put_param get_param g :
  valid_product p ->
  strconv.Atoi put_param = Some (ProductID p) ->
  strconv.Atoi get_param = Some (ProductID p) ->
  fst (addProductDetails put_param (BindOk p) g) = no_content /\
  fst (getProduct get_param (snd (addProductDetails put_param (BindOk p) g)))
  = ok_product p.
Proof.
  intros Hv Hput Hget. pose proof (valid_product_id _ Hv) as Hid.
  rewrite (addProductDetails_accepted _ _ _ _ Hput Hid).
  apply validateProduct_valid in Hv. rewrite Hv, Z.eqb_refl. simpl.
  split; [reflexivity|].
  rewrite (getProduct_accepted _ _ _ Hget Hid). simpl.
  by rewrite lookup_insert_eq.
Qed.

Lemma put_then_get_witness :
  fst (addProductDetails "42" (BindOk acme42) init) = no_content /\
  fst (getProduct "+042" (snd (addProductDetails "42" (BindOk acme42) init)))
  = ok_product acme42.
Proof.
  apply (put_then_get acme42 "42" "+042" init);
    [apply validateProduct_valid; reflexivity | reflexivity | reflexivity].
Defined.

(** C2. The registry invariant: if every stored record satisfies the six
    field constraints, so does every stored record after any sequence of
    requests (GET, POST or health, accepted or refused).  The registry of a
    fresh process is empty ([registry_valid_init]), hence the registry never
    holds a record that violates a constraint. *)
Theorem registry_stays_valid rs g :
  registry_valid (products g) -> registry_valid (products (snd (run rs g))).
Proof. apply (run_invariant registry_valid), serve_preserves_valid. Qed.

Lemma registry_stays_valid_witness :
  registry_valid
    (products (snd (run [POST_details "42" (BindOk acme42);
                         POST_details "7" (BindOk (mkProduct 7 "" "" 0 (-1) 0));
                         GET_product "42"] init))).
Proof.
  apply (registry_stays_valid _ init).
  intros k p Hk. simpl in Hk. rewrite lookup_empty in Hk. discriminate Hk.
Defined.

(** C3, as stated, fails: a candidate that violates the sku and the
    manufacturer length rules and also has [product_id < 1] is reported for
    [product_id], the first rule of the order, not for sku. *)
Lemma sku_report_counterexample :
  passes rule_sku (mkProduct 0 "" "" 1 0 1) = false /\
  passes rule_manufacturer (mkProduct 0 "" "" 1 0 1) = false /\
  validateProduct (mkProduct 0 "" "" 1 0 1) = "product_id must be >= 1" /\
  validateProduct (mkProduct 0 "" "" 1 0 1) <> message rule_sku /\
  fst (addProductDetails "1" (BindOk (mkProduct 0 "" "" 1 0 1)) init)
  = validation_failed "product_id must be >= 1".
Proof. repeat split; try reflexivity. discriminate. Qed.

(** C3, amended. [validateProduct] evaluates the rules in the fixed order
    product_id, sku, manufacturer, category_id, weight, some_other_id and
    returns the message of exactly the first failing rule (the empty string
    when none fails); in particular a candidate whose [product_id] is at
    least 1 and which violates both the sku and the manufacturer length
    rules is reported for sku only. *)
Theorem validation_order p :
  validateProduct p = report p /\
  (1 <= ProductID p ->
   passes rule_sku p = false -> passes rule_manufacturer p = false ->
   first_failing p = Some rule_sku /\ validateProduct p = message rule_sku).
Proof.
  split; [apply validateProduct_report|].
  intros Hid Hsku _.
  assert (first_failing p = Some rule_sku) as H.
  { unfold first_failing, rule_order. cbn [List.find].
    rewrite Hsku. replace (passes rule_product_id p) with true; [done|].
    symmetry. by apply Z.leb_le. }
  split; [done | by apply first_failing_message].
Qed.

Lemma validation_order_witness :
  validateProduct (mkProduct 1 "" "" 0 (-1) 0) = report (mkProduct 1 "" "" 0 (-1) 0) /\
  first_failing (mkProduct 1 "" "" 0 (-1) 0) = Some rule_sku /\
  validateProduct (mkProduct 1 "" "" 0 (-1) 0) = message rule_sku.
Proof.
  destruct (validation_order (mkProduct 1 "" "" 0 (-1) 0)) as [Hrep Hsku].
  split; [exact Hrep|]. apply Hsku; [simpl; lia | reflexivity | reflexivity].
Defined.

(** C4. A path parameter that is not a number, or denotes an id below 1, is
    refused by both handlers with 400 INVALID_INPUT, and the globals are
    returned as they were: the map is unchanged and the access log shows no
    lock operation and no map access. *)
Theorem bad_id_refused param decoded g :
  (strconv.Atoi param = None \/
   exists id, strconv.Atoi param = Some id /\ id < 1) ->
  getProduct param g = (bad_id_get, g) /\
  addProductDetails param decoded g = (bad_id_post, g) /\
  error_code bad_id_get = Some "INVALID_INPUT" /\
  error_code bad_id_post = Some "INVALID_INPUT".
Proof.
  intros H. repeat split.
  - by apply getProduct_rejected.
  - by apply addProductDetails_rejected.
Qed.

Lemma bad_id_refused_witness :
  getProduct "-5" init = (bad_id_get, init) /\
  addProductDetails "-5" (BindOk acme42) init = (bad_id_post, init) /\
  error_code bad_id_get = Some "INVALID_INPUT" /\
  error_code bad_id_post = Some "INVALID_INPUT".
Proof.
  apply (bad_id_refused "-5" (BindOk acme42) init).
  right. exists (-5). split; [reflexivity | lia].
Defined.

(** C5. A Put whose candidate passes all six field rules but whose body
    [product_id] is not the path id is refused with INVALID_INPUT; on an
    accepted path id the refusal is the mismatch response, while a candidate
    that fails a field rule is answered with that rule's message, whether or
    not its [product_id] matches the path: the mismatch check comes after
    the field rules. *)
Theorem mismatch_after_field_rules param p g :
  (valid_product p -> strconv.Atoi param <> Some (ProductID p) ->
   error_code (fst (addProductDetails param (BindOk p) g)) = Some "INVALID_INPUT") /\
  (forall id, strconv.Atoi param = Some id -> 1 <= id ->
     (valid_product p -> ProductID p <> id ->
      addProductDetails param (BindOk p) g = (id_mismatch, g)) /\
     (forall r, first_failing p = Some r ->
      addProductDetails param (BindOk p) g = (validation_failed (message r), g))).
Proof.
  assert (forall id, strconv.Atoi param = Some id -> 1 <= id ->
            valid_product p -> ProductID p <> id ->
            addProductDetails param (BindOk p) g = (id_mismatch, g)) as Hmis.
  { intros id H Hid Hv Hne. rewrite (addProductDetails_accepted _ _ _ _ H Hid).
    apply validateProduct_valid in Hv. rewrite Hv. simpl.
    by destruct (Z.eqb_spec (ProductID p) id). }
  split.
  - intros Hv Hne.
    destruct (rejected_or_accepted param) as [Hrej | (id & H & Hid)].
    + by rewrite (addProductDetails_rejected _ _ _ Hrej).
    + rewrite (Hmis id H Hid Hv); [done|]. congruence.
  - intros id H Hid. split; [by apply Hmis|].
    intros r Hr. rewrite (addProductDetails_accepted _ _ _ _ H Hid).
    rewrite (first_failing_message _ _ Hr).
    destruct (String.eqb_spec (message r) "") as [He|]; [|done].
    by apply message_nonempty in He.
Qed.

Lemma mismatch_after_field_rules_witness :
  addProductDetails "7" (BindOk (mkProduct 8 "ABC" "Acme" 1 500 1)) init
  = (id_mismatch, init) /\
  addProductDetails "7" (BindOk (mkProduct 8 "" "Acme" 1 500 1)) init
  = (validation_failed (message rule_sku), init).
Proof.
  split.
  - apply (proj2 (mismatch_after_field_rules "7" (mkProduct 8 "ABC" "Acme" 1 500 1) init) 7);
      [reflexivity | lia | apply validateProduct_valid; reflexivity | simpl; lia].
  - apply (proj2 (mismatch_after_field_rules "7" (mkProduct 8 "" "Acme" 1 500 1) init) 7);
      [reflexivity | lia | reflexivity].
Defined.

(** C6. Last writer wins: when two valid Products [p1] and then [p2] are
    Put at the same id, both Puts succeed and a following Get of that id
    answers 200 with exactly [p2]; the map afterwards is the map from
    before the two Puts with [p2] at that id, so nothing of [p1] is left. *)
Theorem last_writer_wins p1 p2 param1 param2 get_param id g :
  valid_product p1 -> valid_product p2 ->
  ProductID p1 = id -> ProductID p2 = id ->
  strconv.Atoi param1 = Some id -> strconv.Atoi param2 = Some id ->
  strconv.Atoi get_param = Some id ->
  fst (run [POST_details param1 (BindOk p1);
            POST_details param2 (BindOk p2);
            GET_product get_param] g)
  = [no_content; no_content; ok_product p2] /\
  products (snd (run [POST_details param1 (BindOk p1);
                      POST_details param2 (BindOk p2);
                      GET_product get_param] g))
  = <[id := p2]> (products g).
Proof.
  intros Hv1 Hv2 Hid1 Hid2 H1 H2 H3.
  assert (1 <= id) as Hid by (rewrite <- Hid1; apply Hv1).
  apply validateProduct_valid in Hv1, Hv2.
  rewrite !run_cons. cbn [serve run ret fst snd].
  rewrite (addProductDetails_accepted _ _ _ _ H1 Hid), Hv1, Hid1, Z.eqb_refl.
  cbn [String.eqb fst snd].
  rewrite (addProductDetails_accepted _ _ _ _ H2 Hid), Hv2, Hid2, Z.eqb_refl.
  cbn [String.eqb fst snd].
  rewrite (getProduct_accepted _ _ _ H3 Hid).
  cbn [fst snd after_read after_write products].
  rewrite lookup_insert_eq, insert_insert_eq. done.
Qed.

Lemma last_writer_wins_witness :
  fst (run [POST_details "42" (BindOk acme42);
            POST_details "042" (BindOk (mkProduct 42 "XYZ" "Globex" 2 0 9));
            GET_product "42"] init)
  = [no_content; no_content; ok_product (mkProduct 42 "XYZ" "Globex" 2 0 9)] /\
  products (snd (run [POST_details "42" (BindOk acme42);
                      POST_details "042" (BindOk (mkProduct 42 "XYZ" "Globex" 2 0 9));
                      GET_product "42"] init))
  = <[42 := mkProduct 42 "XYZ" "Globex" 2 0 9]> (products init).
Proof.
  apply (last_writer_wins acme42 (mkProduct 42 "XYZ" "Globex" 2 0 9)
           "42" "042" "42" 42 init);
    try reflexivity; apply validateProduct_valid; reflexivity.
Defined.

(** C7. Failed writes are atomic: whenever [addProductDetails] answers
    INVALID_INPUT, whatever the cause (path id, body decoding, a field
    rule, path/body mismatch), the globals after the call are the globals
    before it: same map, and no lock taken. *)
Theorem refused_put_changes_nothing param decoded g :
  error_code (fst (addProductDetails param decoded g)) = Some "INVALID_INPUT" ->
  snd (addProductDetails param decoded g) = g.
Proof.
  pose proof (addProductDetails_outcome param decoded g) as Hout.
  destruct (addProductDetails param decoded g) as [r g']. simpl in *.
  destruct Hout as [id p _ _ _ _ _ | r _ _]; [discriminate | done].
Qed.

Lemma refused_put_changes_nothing_witness :
  snd (addProductDetails "7" (BindOk (mkProduct 8 "ABC" "Acme" 1 500 1)) init) = init.
Proof.
  apply (refused_put_changes_nothing "7" (BindOk (mkProduct 8 "ABC" "Acme" 1 500 1)) init).
  reflexivity.
Defined.

(** C8. Starting from a fresh process, after any history of requests in
    which no POST to [id] was answered 204, a Get of [id] (with [id >= 1])
    answers 404 NOT_FOUND, and it leaves the map as it was: its only trace
    is the guarded read in the access log. *)
Theorem get_never_put_not_found rs id param :
  1 <= id ->
  strconv.Atoi param = Some id ->
  (forall post_param decoded r,
      (POST_details post_param decoded, r) ∈ zip rs (fst (run rs init)) ->
      strconv.Atoi post_param = Some id -> status r <> StatusNoContent) ->
  getProduct param (snd (run rs init))
  = (not_found id, after_read id (snd (run rs init))) /\
  error_code (not_found id) = Some "NOT_FOUND" /\
  products (snd (getProduct param (snd (run rs init))))
  = products (snd (run rs init)).
Proof.
  intros Hid H Hno.
  rewrite (getProduct_accepted _ _ _ H Hid).
  rewrite (run_absent id rs init); [done | apply lookup_empty | done].
Qed.

Lemma get_never_put_not_found_witness :
  getProduct "9999"
    (snd (run [POST_details "42" (BindOk acme42);
               POST_details "9999" (BindOk acme42)] init))
  = (not_found 9999,
     after_read 9999
       (snd (run [POST_details "42" (BindOk acme42);
                  POST_details "9999" (BindOk acme42)] init))) /\
  error_code (not_found 9999) = Some "NOT_FOUND" /\
  products
    (snd (getProduct "9999"
            (snd (run [POST_details "42" (BindOk acme42);
                       POST_details "9999" (BindOk acme42)] init))))
  = products (snd (run [POST_details "42" (BindOk acme42);
                        POST_details "9999" (BindOk acme42)] init)).
Proof.
  apply (get_never_put_not_found
           [POST_details "42" (BindOk acme42); POST_details "9999" (BindOk acme42)]
           9999 "9999"); [lia | reflexivity |].
  intros post_param decoded r Hin Hpost.
  apply elem_of_cons in Hin as [Hin | Hin].
  - injection Hin as -> _ _. discriminate Hpost.
  - apply elem_of_cons in Hin as [Hin | Hin].
    + injection Hin as _ _ ->. discriminate.
    + by apply elem_of_nil in Hin.
Defined.

(** C10. Keys and ids agree: if every record of the map is stored under
    its own [product_id], a key that is at least 1, the same holds after any
    sequence of requests; the map of a fresh process is empty
    ([keys_agree_init]).  On such a map a Get that answers 200 returns a
    Product whose [product_id] is the id the request asked for. *)
Theorem stored_under_own_id rs g :
  keys_agree (products g) ->
  keys_agree (products (snd (run rs g))) /\
  (forall param p,
      fst (getProduct param (snd (run rs g))) = ok_product p ->
      strconv.Atoi param = Some (ProductID p) /\ 1 <= ProductID p).
Proof.
  intros Hg.
  assert (keys_agree (products (snd (run rs g)))) as Hinv
    by (revert Hg; apply (run_invariant keys_agree), serve_preserves_keys).
  split; [done|]. intros param p.
  destruct (rejected_or_accepted param) as [Hrej | (id & H & Hid)].
  - by rewrite (getProduct_rejected _ _ Hrej).
  - rewrite (getProduct_accepted _ _ _ H Hid). simpl.
    destruct (products (snd (run rs g)) !! id) as [q|] eqn:Hq; [|discriminate].
    intros [= ->]. destruct (Hinv _ _ Hq) as [-> _]. done.
Qed.

Lemma stored_under_own_id_witness :
  keys_agree (products (snd (run [POST_details "42" (BindOk acme42)] init))) /\
  (forall param p,
      fst (getProduct param (snd (run [POST_details "42" (BindOk acme42)] init)))
      = ok_product p ->
      strconv.Atoi param = Some (ProductID p) /\ 1 <= ProductID p).
Proof.
  apply (stored_under_own_id [POST_details "42" (BindOk acme42)] init).
  intros k p Hk. simpl in Hk. rewrite lookup_empty in Hk. discriminate Hk.
Defined.

(** * Further properties of the handlers *)

(** ** Shared lemmas *)

Lemma addProductDetails_response param decoded g1 g2 :
  fst (addProductDetails param decoded g1) = fst (addProductDetails param decoded g2).
Proof.
  destruct (rejected_or_accepted param) as [Hrej | (id & H & Hid)].
  - by rewrite !(addProductDetails_rejected _ _ _ Hrej).
  - rewrite !(addProductDetails_accepted _ _ _ _ H Hid).
    destruct decoded as [p|msg]; [|done].
    destruct (String.eqb (validateProduct p) ""); [|done].
    by destruct (ProductID p =? id).
Qed.

Lemma getProduct_response param g1 g2 :
  products g1 = products g2 ->
  fst (getProduct param g1) = fst (getProduct param g2).
Proof.
  intros Heq. destruct (rejected_or_accepted param) as [Hrej | (id & H & Hid)].
  - by rewrite !(getProduct_rejected _ _ Hrej).
  - rewrite !(getProduct_accepted _ _ _ H Hid). simpl. by rewrite Heq.
Qed.

Lemma serve_response r g1 g2 :
  products g1 = products g2 -> fst (serve r g1) = fst (serve r g2).
Proof.
  intros Heq. destruct r as [param | param decoded |]; simpl.
  - by apply getProduct_response.
  - apply addProductDetails_response.
  - done.
Qed.

Lemma serve_products_congr r g1 g2 :
  products g1 = products g2 ->
  products (snd (serve r g1)) = products (snd (serve r g2)).
Proof.
  intros Heq. destruct r as [param | param decoded |]; simpl; [| |done].
  - by rewrite !getProduct_products.
  - destruct (rejected_or_accepted param) as [Hrej | (id & H & Hid)].
    + by rewrite !(addProductDetails_rejected _ _ _ Hrej).
    + rewrite !(addProductDetails_accepted _ _ _ _ H Hid).
      destruct decoded as [p|msg]; [|done].
      destruct (String.eqb (validateProduct p) ""); [|done].
      destruct (ProductID p =? id); [|done]. simpl. by rewrite Heq.
Qed.

Lemma serve_unchanged_or_204 r g :
  products (snd (serve r g)) = products g \/
  status (fst (serve r g)) = StatusNoContent.
Proof.
  destruct (serve_products r g) as [H | (param & p & _ & _ & _ & Hresp & _)];
    [by left | right]. by rewrite Hresp.
Qed.

Lemma run_app rs1 rs2 g :
  run (rs1 ++ rs2) g
  = ((fst (run rs1 g) ++ fst (run rs2 (snd (run rs1 g))))%list,
     snd (run rs2 (snd (run rs1 g)))).
Proof.
  revert g. induction rs1 as [|r rs1 IH]; intros g.
  - simpl. by destruct (run rs2 g).
  - rewrite <- app_comm_cons, !run_cons, IH. done.
Qed.

(** ** validateProduct *)

(** X1. The validator is sound and complete for the schema: it returns the
    empty string exactly for the records that satisfy all six field
    constraints, so it rejects nothing valid and accepts nothing invalid. *)
Theorem validator_accepts_exactly_valid p :
  validateProduct p = "" <-> valid_product p.
Proof. apply validateProduct_valid. Qed.

(** ** addProductDetails *)

(** X2. The exact acceptance condition of a POST: it is answered 204 if and
    only if the body decoded to a record that satisfies the six field
    constraints and whose [product_id] is the id the path denotes. *)
Theorem put_succeeds_iff param decoded g :
  fst (addProductDetails param decoded g) = no_content <->
  exists p, decoded = BindOk p /\ valid_product p /\
            strconv.Atoi param = Some (ProductID p).
Proof.
  split.
  - pose proof (addProductDetails_outcome param decoded g) as Hout.
    destruct (addProductDetails param decoded g) as [r g']. simpl in *.
    destruct Hout as [id p H _ -> Hv <- | r Hst _].
    + intros _. by exists p.
    + intros ->. discriminate Hst.
  - intros (p & -> & Hv & H).
    rewrite (addProductDetails_accepted _ _ _ _ H (valid_product_id _ Hv)).
    apply validateProduct_valid in Hv. by rewrite Hv, Z.eqb_refl.
Qed.

(** X3. [addProductDetails] has two kinds of answer only: 204 with no body,
    or 400 with error code INVALID_INPUT.  It never answers 404, also not on
    a path/body mismatch. *)
Theorem put_answers_204_or_400 param decoded g :
  (fst (addProductDetails param decoded g) = no_content \/
   status (fst (addProductDetails param decoded g)) = StatusBadRequest /\
   error_code (fst (addProductDetails param decoded g)) = Some "INVALID_INPUT") /\
  status (fst (addProductDetails param decoded g)) <> StatusNotFound.
Proof.
  pose proof (addProductDetails_outcome param decoded g) as Hout.
  destruct (addProductDetails param decoded g) as [r g']. simpl in *.
  destruct Hout as [id p _ _ _ _ _ | r Hst Hcode].
  - split; [by left | discriminate].
  - split; [by right | by rewrite Hst].
Qed.

(** X4. The answer to a POST does not depend on what the registry holds:
    creating an entry and overwriting one are answered alike. *)
Theorem put_response_ignores_registry param decoded g1 g2 :
  fst (addProductDetails param decoded g1) = fst (addProductDetails param decoded g2).
Proof. apply addProductDetails_response. Qed.

(** ** The map under single requests *)

(** X5. The map changes only on a 204: a request of any route that is not
    answered 204 leaves the map exactly as it was. *)
Theorem map_changes_only_on_204 r g :
  status (fst (serve r g)) <> StatusNoContent ->
  products (snd (serve r g)) = products g.
Proof. intros Hst. by destruct (serve_unchanged_or_204 r g). Qed.

Lemma map_changes_only_on_204_witness :
  products (snd (serve (GET_product "42")
                   (snd (serve (POST_details "42" (BindOk acme42)) init))))
  = products (snd (serve (POST_details "42" (BindOk acme42)) init)).
Proof. apply map_changes_only_on_204. vm_compute. discriminate. Defined.

(** X6. [getProduct] is read-only on every input, accepted or refused: the
    map after the call is the map before it, and asking again right away
    gives the same answer. *)
Theorem get_is_read_only param g :
  products (snd (getProduct param g)) = products g /\
  fst (getProduct param (snd (getProduct param g))) = fst (getProduct param g).
Proof.
  split; [apply getProduct_products|].
  apply getProduct_response, getProduct_products.
Qed.

(** X7. Every request is idempotent: served twice in a row it gets the same
    answer both times and leaves the same map as served once. *)
Theorem requests_are_idempotent r g :
  fst (run [r; r] g) = [fst (serve r g); fst (serve r g)] /\
  products (snd (run [r; r] g)) = products (snd (run [r] g)).
Proof.
  rewrite !run_cons. cbn [run ret fst snd].
  destruct (serve_products r g) as [Heq | (param & p & -> & H & Hv & Hresp & Heq)].
  - split.
    + f_equal. f_equal. by apply serve_response.
    + by apply serve_products_congr.
  - cbn [serve] in *. split.
    + f_equal. f_equal. apply addProductDetails_response.
    + rewrite (addProductDetails_accepted _ _ _ _ H (valid_product_id _ Hv))
        at 1.
      rewrite (proj2 (validateProduct_valid p) Hv), Z.eqb_refl.
      cbn [String.eqb snd after_write products].
      by rewrite Heq, insert_insert_eq.
Qed.

(** ** The map under histories *)

(** What a request does to the map does not depend on the map: it leaves
    it alone, or it is a POST that always commits its record. *)
Lemma serve_effect r :
  (forall g, products (snd (serve r g)) = products g) \/
  exists param p,
    r = POST_details param (BindOk p) /\
    strconv.Atoi param = Some (ProductID p) /\
    valid_product p /\
    forall g, fst (serve r g) = no_content /\
              products (snd (serve r g)) = <[ProductID p := p]> (products g).
Proof.
  destruct r as [param | param decoded |]; simpl; [left | | by left].
  { intros g. apply getProduct_products. }
  destruct (rejected_or_accepted param) as [Hrej | (id & H & Hid)].
  { left. intros g. by rewrite (addProductDetails_rejected _ _ _ Hrej). }
  destruct decoded as [p|msg];
    [| left; intros g; by rewrite (addProductDetails_accepted _ _ _ _ H Hid)].
  destruct (String.eqb_spec (validateProduct p) "") as [Hv|Hv];
    [| left; intros g; rewrite (addProductDetails_accepted _ _ _ _ H Hid);
       by destruct (String.eqb_spec (validateProduct p) "")].
  destruct (Z.eqb_spec (ProductID p) id) as [Heq|Hne].
  - right. exists param, p. subst id.
    split; [done|]. split; [done|]. split; [by apply validateProduct_valid|].
    intros g. by rewrite (addProductDetails_accepted _ _ _ _ H Hid), Hv, Z.eqb_refl.
  - left. intros g. rewrite (addProductDetails_accepted _ _ _ _ H Hid), Hv.
    simpl. by destruct (Z.eqb_spec (ProductID p) id).
Qed.

Lemma serve_keeps_entries k r g :
  is_Some (products g !! k) -> is_Some (products (snd (serve r g)) !! k).
Proof.
  intros Hk.
  destruct (serve_products r g) as [-> | (param & p & _ & _ & _ & _ & ->)]; [done|].
  rewrite lookup_insert. by case_decide.
Qed.

Lemma getProduct_status_ok param g :
  status (fst (getProduct param g)) = StatusOK <->
  exists id, strconv.Atoi param = Some id /\ 1 <= id /\ is_Some (products g !! id).
Proof.
  destruct (rejected_or_accepted param) as [Hrej | (id & H & Hid)].
  - rewrite (getProduct_rejected _ _ Hrej). split; [discriminate|].
    intros (id & H & Hid & _). destruct Hrej as [Hn | (id' & H' & Hlt)]; [congruence|].
    simplify_eq. lia.
  - rewrite (getProduct_accepted _ _ _ H Hid). simpl. split.
    + destruct (products g !! id) as [p|] eqn:Hp; [|discriminate].
      intros _. exists id. rewrite Hp. eauto.
    + intros (id' & H' & _ & [p Hp]). simplify_eq. by rewrite Hp.
Qed.

(** A history in which no POST to [id] was answered 204 leaves what is
    stored under [id] as it was. *)
Lemma run_frame id rs g :
  (forall param decoded r,
      (POST_details param decoded, r) ∈ zip rs (fst (run rs g)) ->
      strconv.Atoi param = Some id -> status r <> StatusNoContent) ->
  products (snd (run rs g)) !! id = products g !! id.
Proof.
  revert g. induction rs as [|rq rs IH]; intros g Hno; [done|].
  rewrite run_cons in *. simpl in *. rewrite IH.
  - destruct (serve_products rq g)
      as [-> | (param & p & -> & Hatoi & _ & Hresp & ->)]; [done|].
    rewrite lookup_insert_ne; [done|]. intros Heq.
    apply (Hno param (BindOk p) no_content); [|by rewrite Hatoi, Heq|done].
    rewrite Hresp. apply elem_of_cons. by left.
  - intros param decoded r Hin. apply (Hno param decoded r).
    apply elem_of_cons. by right.
Qed.

(** X8. Nothing is ever deleted: once a Get of a path is answered 200, it
    is answered 200 after any further sequence of requests (the record
    returned may have been overwritten, the entry cannot disappear). *)
Theorem found_stays_found rs g param :
  status (fst (getProduct param g)) = StatusOK ->
  status (fst (getProduct param (snd (run rs g)))) = StatusOK.
Proof.
  rewrite !getProduct_status_ok. intros (id & H & Hid & Hk).
  exists id. repeat split; try done. revert Hk.
  apply (run_invariant (fun m => is_Some (m !! id))).
  intros r g'. apply serve_keeps_entries.
Qed.

Lemma found_stays_found_witness :
  status (fst (getProduct "42"
                 (snd (run [POST_details "42" (BindOk (mkProduct 42 "" "" 0 0 0));
                            POST_details "7" (BindOk (mkProduct 7 "S" "M" 1 0 1));
                            GET_product "0"]
                         (snd (addProductDetails "42" (BindOk acme42) init))))))
  = StatusOK.
Proof. apply found_stays_found. reflexivity. Defined.

(** X9. Requests on other ids, and refused writes, do not show: if no POST
    of a history that was answered 204 addressed the id a path denotes, a
    Get of that path is answered after the history as it was before. *)
Theorem get_unaffected_by_other_ids rs g param :
  (forall post_param decoded r,
      (POST_details post_param decoded, r) ∈ zip rs (fst (run rs g)) ->
      status r = StatusNoContent ->
      strconv.Atoi post_param <> strconv.Atoi param) ->
  fst (getProduct param (snd (run rs g))) = fst (getProduct param g).
Proof.
  intros Hno. destruct (rejected_or_accepted param) as [Hrej | (id & H & Hid)].
  - by rewrite !(getProduct_rejected _ _ Hrej).
  - rewrite !(getProduct_accepted _ _ _ H Hid). simpl.
    rewrite (run_frame id rs g); [done|].
    intros post_param decoded r Hin Hpost Hst.
    apply (Hno _ _ _ Hin Hst). congruence.
Qed.

Lemma get_unaffected_by_other_ids_witness :
  fst (getProduct "42"
         (snd (run [POST_details "7" (BindOk (mkProduct 7 "S" "M" 1 0 1));
                    POST_details "42" (BindOk (mkProduct 42 "" "M" 1 0 1))]
                 (snd (addProductDetails "42" (BindOk acme42) init)))))
  = fst (getProduct "42" (snd (addProductDetails "42" (BindOk acme42) init))).
Proof.
  apply get_unaffected_by_other_ids.
  intros post_param decoded r Hin Hst.
  apply elem_of_cons in Hin as [Hin | Hin].
  - injection Hin as -> _ _. discriminate.
  - apply elem_of_cons in Hin as [Hin | Hin].
    + injection Hin as _ _ ->. discriminate Hst.
    + by apply elem_of_nil in Hin.
Defined.

(** X10. A Get returns the latest committed write: after a successful Put
    of [p], and whatever came before it, a Get of [p]'s id answers 200 with
    exactly [p] as long as no later POST to that id was answered 204;
    requests on other ids, Gets and refused POSTs in between do not
    matter. *)
Theorem get_returns_latest_put rs1 rs2 p put_param get_param g :
  valid_product p ->
  strconv.Atoi put_param = Some (ProductID p) ->
  strconv.Atoi get_param = Some (ProductID p) ->
  (forall post_param decoded r,
      (POST_details post_param decoded, r)
        ∈ zip rs2 (fst (run rs2 (snd (run (rs1 ++ [POST_details put_param (BindOk p)]) g)))) ->
      strconv.Atoi post_param = Some (ProductID p) -> status r <> StatusNoContent) ->
  fst (getProduct get_param
         (snd (run ((rs1 ++ [POST_details put_param (BindOk p)]) ++ rs2) g)))
  = ok_product p.
Proof.
  intros Hv Hput Hget Hno. pose proof (valid_product_id _ Hv) as Hid.
  rewrite (run_app _ rs2). cbn [snd].
  rewrite (getProduct_accepted _ _ _ Hget Hid). cbn [fst].
  rewrite (run_frame _ _ _ Hno).
  rewrite run_app, run_cons. cbn [snd run ret serve].
  rewrite (addProductDetails_accepted _ _ _ _ Hput Hid).
  rewrite (proj2 (validateProduct_valid p) Hv), Z.eqb_refl.
  cbn [String.eqb snd after_write products].
  by rewrite lookup_insert_eq.
Qed.

Lemma get_returns_latest_put_witness :
  fst (getProduct "42"
         (snd (run (([POST_details "42" (BindOk (mkProduct 42 "OLD" "M" 1 0 1))]
                     ++ [POST_details "42" (BindOk acme42)])
                    ++ [POST_details "7" (BindOk (mkProduct 7 "S" "M" 1 0 1));
                        POST_details "42" (BindOk (mkProduct 42 "" "M" 1 0 1))])
                 init)))
  = ok_product acme42.
Proof.
  apply (get_returns_latest_put
           [POST_details "42" (BindOk (mkProduct 42 "OLD" "M" 1 0 1))]
           [POST_details "7" (BindOk (mkProduct 7 "S" "M" 1 0 1));
            POST_details "42" (BindOk (mkProduct 42 "" "M" 1 0 1))]
           acme42 "42" "42" init);
    [apply validateProduct_valid; reflexivity | reflexivity | reflexivity |].
  intros post_param decoded r Hin Hpost.
  apply elem_of_cons in Hin as [Hin | Hin].
  - injection Hin as -> _ _. discriminate Hpost.
  - apply elem_of_cons in Hin as [Hin | Hin].
    + injection Hin as _ _ ->. discriminate.
    + by apply elem_of_nil in Hin.
Defined.

(** X11. POSTs to different ids commute: served in either order they get
    the same answers and leave the same map. *)
Theorem posts_to_distinct_ids_commute pa da pb db g :
  strconv.Atoi pa <> strconv.Atoi pb ->
  fst (run [POST_details pa da; POST_details pb db] g)
  = [fst (addProductDetails pa da g); fst (addProductDetails pb db g)] /\
  fst (run [POST_details pb db; POST_details pa da] g)
  = [fst (addProductDetails pb db g); fst (addProductDetails pa da g)] /\
  products (snd (run [POST_details pa da; POST_details pb db] g))
  = products (snd (run [POST_details pb db; POST_details pa da] g)).
Proof.
  intros Hne. rewrite !run_cons. cbn [run ret fst snd serve].
  split; [|split].
  - f_equal. f_equal. apply addProductDetails_response.
  - f_equal. f_equal. apply addProductDetails_response.
  - destruct (serve_effect (POST_details pa da))
      as [Ha | (? & p & [= <- ->] & Hpa & _ & Ha)];
    destruct (serve_effect (POST_details pb db))
      as [Hb | (? & q & [= <- ->] & Hpb & _ & Hb)];
    cbn [serve] in *;
    try (pose proof (fun g => proj2 (Ha g)) as Ha'; clear Ha; rename Ha' into Ha);
    try (pose proof (fun g => proj2 (Hb g)) as Hb'; clear Hb; rename Hb' into Hb);
    repeat (rewrite Ha || rewrite Hb); [done | done | done |].
    apply insert_insert_ne. congruence.
Qed.

Lemma posts_to_distinct_ids_commute_witness :
  fst (run [POST_details "42" (BindOk acme42);
            POST_details "7" (BindOk (mkProduct 7 "S" "M" 1 0 1))] init)
  = [fst (addProductDetails "42" (BindOk acme42) init);
     fst (addProductDetails "7" (BindOk (mkProduct 7 "S" "M" 1 0 1)) init)] /\
  fst (run [POST_details "7" (BindOk (mkProduct 7 "S" "M" 1 0 1));
            POST_details "42" (BindOk acme42)] init)
  = [fst (addProductDetails "7" (BindOk (mkProduct 7 "S" "M" 1 0 1)) init);
     fst (addProductDetails "42" (BindOk acme42) init)] /\
  products (snd (run [POST_details "42" (BindOk acme42);
                      POST_details "7" (BindOk (mkProduct 7 "S" "M" 1 0 1))] init))
  = products (snd (run [POST_details "7" (BindOk (mkProduct 7 "S" "M" 1 0 1));
                        POST_details "42" (BindOk acme42)] init)).
Proof. apply posts_to_distinct_ids_commute. discriminate. Defined.

(** ** The guard *)

Lemma well_guarded_app l1 l2 :
  well_guarded l1 = true -> well_guarded (l1 ++ l2)%list = well_guarded l2.
Proof.
  revert l1. fix IH 1. intros l1.
  destruct l1 as [|a [|b [|c rest]]]; [reflexivity | | |];
    destruct a; try (intros Hf; discriminate Hf);
    destruct b; try (intros Hf; discriminate Hf);
    destruct c; try (intros Hf; discriminate Hf);
    simpl; apply IH.
Qed.

Lemma serve_log r g :
  exists block : list access,
    log (snd (serve r g)) = (log g ++ block)%list /\ well_guarded block = true.
Proof.
  destruct r as [param | param decoded |]; simpl.
  - destruct (rejected_or_accepted param) as [Hrej | (id & H & Hid)].
    + exists []. by rewrite (getProduct_rejected _ _ Hrej), app_nil_r.
    + exists [RLock; MapLoad id; RUnlock].
      by rewrite (getProduct_accepted _ _ _ H Hid).
  - pose proof (addProductDetails_outcome param decoded g) as Hout.
    destruct (addProductDetails param decoded g) as [r g']. simpl in *.
    destruct Hout as [id p _ _ _ _ _ | r _ _].
    + by exists [Lock; MapStore id; Unlock].
    + exists []. by rewrite app_nil_r.
  - exists []. by rewrite app_nil_r.
Qed.

(** X12. The guard brackets every map access: after any sequence of
    requests the access log is a sequence of blocks, each one map load
    between [mu.RLock] and [mu.RUnlock] or one map store between [mu.Lock]
    and [mu.Unlock]; no map access happens outside the guard, no lock is
    left held and none is taken twice. *)
Theorem guard_brackets_every_access rs g :
  well_guarded (log g) = true -> well_guarded (log (snd (run rs g))) = true.
Proof.
  revert g. induction rs as [|r rs IH]; intros g Hg; [done|].
  rewrite run_cons. cbn [snd]. apply IH.
  destruct (serve_log r g) as (block & -> & Hblock).
  by rewrite well_guarded_app.
Qed.

Lemma guard_brackets_every_access_witness :
  well_guarded
    (log (snd (run [POST_details "42" (BindOk acme42); GET_product "42";
                    GET_product "x"; GET_health] init))) = true.
Proof. apply guard_brackets_every_access. reflexivity. Defined.

(** ** Path parameters *)

Lemma digits_of_uint_acc d acc :
  strconv.digits (NilEmpty.string_of_uint d) (Z.pos acc)
  = Some (Z.pos (Pos.of_uint_acc d acc)).
Proof.
  revert acc. induction d; intros acc;
    cbn [NilEmpty.string_of_uint strconv.digits Pos.of_uint_acc];
    [reflexivity | ..];
    match goal with
    | |- context [strconv.digit ?c] =>
        let v := eval vm_compute in (strconv.digit c) in
        change (strconv.digit c) with v
    end;
    cbv iota beta; rewrite <- IHd; f_equal; lia.
Qed.

Lemma digits_of_uint d :
  strconv.digits (NilEmpty.string_of_uint d) 0 = Some (Z.of_N (Pos.of_uint d)).
Proof.
  induction d;
    cbn [NilEmpty.string_of_uint strconv.digits Pos.of_uint];
    [reflexivity | ..];
    match goal with
    | |- context [strconv.digit ?c] =>
        let v := eval vm_compute in (strconv.digit c) in
        change (strconv.digit c) with v
    end;
    cbv iota beta; [exact IHd | apply digits_of_uint_acc ..].
Qed.

Lemma in_range_true v :
  strconv.minInt <= v <= strconv.maxInt ->
  (strconv.minInt <=? v) && (v <=? strconv.maxInt) = true.
Proof. intros [? ?]. apply andb_true_intro. split; by apply Z.leb_le. Qed.

Lemma Atoi_unsigned d :
  d <> Decimal.Nil ->
  strconv.Atoi (NilEmpty.string_of_uint d)
  = match strconv.digits (NilEmpty.string_of_uint d) 0 with
    | Some n =>
        if (strconv.minInt <=? n) && (n <=? strconv.maxInt) then Some n else None
    | None => None
    end.
Proof. destruct d; [congruence | reflexivity ..]. Qed.

Lemma Atoi_negated d :
  d <> Decimal.Nil ->
  strconv.Atoi (String "-" (NilEmpty.string_of_uint d))
  = match strconv.digits (NilEmpty.string_of_uint d) 0 with
    | Some n =>
        if (strconv.minInt <=? - n) && (- n <=? strconv.maxInt) then Some (- n)
        else None
    | None => None
    end.
Proof. destruct d; [congruence | reflexivity ..]. Qed.

Lemma string_of_uint_nonnil d :
  d <> Decimal.Nil -> NilZero.string_of_uint d = NilEmpty.string_of_uint d.
Proof. destruct d; [congruence | reflexivity ..]. Qed.

(** [Atoi] reads back what [Itoa] prints, for every [int]. *)
Lemma Atoi_Itoa i :
  strconv.minInt <= i <= strconv.maxInt -> strconv.Atoi (strconv.Itoa i) = Some i.
Proof.
  intros Hi. destruct i as [|p|p]; [reflexivity | |];
    unfold strconv.Itoa; cbn [Z.to_int NilZero.string_of_int];
    pose proof (DecimalPos.Unsigned.to_uint_nonnil p) as Hnil;
    rewrite (string_of_uint_nonnil _ Hnil).
  - rewrite (Atoi_unsigned _ Hnil), digits_of_uint, DecimalPos.Unsigned.of_to.
    cbn [Z.of_N]. by rewrite in_range_true.
  - rewrite (Atoi_negated _ Hnil), digits_of_uint, DecimalPos.Unsigned.of_to.
    cbn [Z.of_N Z.opp]. by rewrite in_range_true.
Qed.

Lemma Atoi_range s v :
  strconv.Atoi s = Some v -> strconv.minInt <= v <= strconv.maxInt.
Proof.
  unfold strconv.Atoi.
  destruct (match s with
            | String "+"%char r => (false, r)
            | String "-"%char r => (true, r)
            | _ => (false, s)
            end) as [neg rest].
  destruct rest as [|a rest]; [discriminate|].
  destruct (strconv.digits (String a rest) 0) as [n|]; [|discriminate].
  cbv zeta.
  destruct ((strconv.minInt <=? (if neg then - n else n))
            && ((if neg then - n else n) <=? strconv.maxInt)) eqn:E; [|discriminate].
  intros [= <-]. apply andb_true_iff in E as [E1 E2].
  split; by apply Z.leb_le.
Qed.

Lemma keys_in_range_init : keys_in_range (products init).
Proof. intros k p. simpl. by rewrite lookup_empty. Qed.

Lemma serve_preserves_range r g :
  keys_in_range (products g) -> keys_in_range (products (snd (serve r g))).
Proof.
  intros Hinv.
  destruct (serve_products r g) as [-> | (param & p & _ & H & Hv & _ & ->)]; [done|].
  intros k q. rewrite lookup_insert. case_decide; [|by apply Hinv].
  intros _. subst k. split; [apply Hv | by apply (Atoi_range param)].
Qed.

(** X13. Every stored record can be fetched: in a registry whose keys are
    positive [int]s (as they are in any registry grown from the empty one),
    a record stored under key [k] is returned, with 200, by a Get whose
    path is the decimal text of [k]. *)
Theorem stored_products_retrievable rs g k p :
  keys_in_range (products g) ->
  products (snd (run rs g)) !! k = Some p ->
  fst (getProduct (strconv.Itoa k) (snd (run rs g))) = ok_product p.
Proof.
  intros Hg Hk.
  assert (keys_in_range (products (snd (run rs g)))) as Hinv
    by (revert Hg; apply (run_invariant keys_in_range), serve_preserves_range).
  destruct (Hinv _ _ Hk) as [Hlo Hhi].
  assert (strconv.Atoi (strconv.Itoa k) = Some k) as H.
  { apply Atoi_Itoa. split; [|done].
    transitivity 1; [|done]. by vm_compute. }
  rewrite (getProduct_accepted _ _ _ H Hlo). simpl. by rewrite Hk.
Qed.

Lemma stored_products_retrievable_witness :
  fst (getProduct (strconv.Itoa 42)
         (snd (run [POST_details "+042" (BindOk acme42)] init)))
  = ok_product acme42.
Proof.
  apply (stored_products_retrievable [POST_details "+042" (BindOk acme42)] init 42 acme42).
  - intros k p Hk. simpl in Hk. rewrite lookup_empty in Hk. discriminate Hk.
  - vm_compute. reflexivity.
Defined.

(** ** Which ids are found *)

Lemma run_present id rs g :
  is_Some (products (snd (run rs g)) !! id) ->
  is_Some (products g !! id) \/
  exists param decoded r,
    (POST_details param decoded, r) ∈ zip rs (fst (run rs g)) /\
    strconv.Atoi param = Some id /\ status r = StatusNoContent.
Proof.
  revert g. induction rs as [|rq rs IH]; intros g; [by left|].
  rewrite run_cons. cbn [fst snd]. intros Hk.
  destruct (IH _ Hk) as [Hk1 | (param & decoded & r & Hin & H & Hst)].
  - destruct (serve_products rq g)
      as [Heq | (param & p & -> & H & _ & Hresp & Heq)];
      rewrite Heq in Hk1; [by left|].
    destruct (decide (ProductID p = id)) as [<- | Hne].
    + right. exists param, (BindOk p), no_content. split; [|done].
      rewrite Hresp. apply elem_of_cons. by left.
    + left. by rewrite lookup_insert_ne in Hk1.
  - right. exists param, decoded, r. split; [|done].
    apply elem_of_cons. by right.
Qed.

Lemma serve_204 r g :
  status (fst (serve r g)) = StatusNoContent ->
  exists param p,
    r = POST_details param (BindOk p) /\
    strconv.Atoi param = Some (ProductID p) /\
    1 <= ProductID p /\
    products (snd (serve r g)) = <[ProductID p := p]> (products g).
Proof.
  destruct r as [param | param decoded |]; simpl; [| |discriminate].
  - destruct (rejected_or_accepted param) as [Hrej | (id & H & Hid)].
    + rewrite (getProduct_rejected _ _ Hrej). discriminate.
    + rewrite (getProduct_accepted _ _ _ H Hid). simpl.
      destruct (products g !! id); discriminate.
  - pose proof (addProductDetails_outcome param decoded g) as Hout.
    destruct (addProductDetails param decoded g) as [r g']. simpl in *.
    destruct Hout as [id p H Hid -> _ <- | r Hbad _].
    + intros _. by exists param, p.
    + rewrite Hbad. discriminate.
Qed.

(** A POST answered 204 addressed a positive id, which is stored from then
    on. *)
Lemma run_committed rs g param decoded r :
  (POST_details param decoded, r) ∈ zip rs (fst (run rs g)) ->
  status r = StatusNoContent ->
  exists id, strconv.Atoi param = Some id /\ 1 <= id /\
             is_Some (products (snd (run rs g)) !! id).
Proof.
  revert g. induction rs as [|rq rs IH]; intros g Hin Hst.
  { by apply elem_of_nil in Hin. }
  revert Hin. rewrite run_cons. cbn [fst snd zip zip_with]. intros Hin.
  apply elem_of_cons in Hin as [Hin | Hin]; [|by apply IH].
  injection Hin as <- ->.
  destruct (serve_204 _ _ Hst) as (? & p & [= <- ->] & H & Hid & Heq).
  exists (ProductID p). split; [done|]. split; [done|].
  apply (run_invariant (fun m => is_Some (m !! ProductID p)));
    [intros r' g'; apply serve_keeps_entries|].
  by rewrite Heq, lookup_insert_eq.
Qed.

(** X14. Which ids are found: after any history of a fresh process, a Get
    of a path is answered 200 if and only if some POST of the history that
    was answered 204 addressed the id that path denotes. *)
Theorem found_iff_put_before rs param :
  status (fst (getProduct param (snd (run rs init)))) = StatusOK <->
  exists post_param decoded r,
    (POST_details post_param decoded, r) ∈ zip rs (fst (run rs init)) /\
    status r = StatusNoContent /\
    strconv.Atoi post_param = strconv.Atoi param.
Proof.
  rewrite getProduct_status_ok. split.
  - intros (id & H & Hid & Hk).
    destruct (run_present id rs init Hk) as [[p Hp] | (pp & d & r & Hin & Hpp & Hst)].
    + simpl in Hp. by rewrite lookup_empty in Hp.
    + exists pp, d, r. repeat split; try done. congruence.
  - intros (pp & d & r & Hin & Hst & Heq).
    destruct (run_committed _ _ _ _ _ Hin Hst) as (id & Hpp & Hid & Hk).
    exists id. split; [congruence | done].
Qed.

(** * Concurrent requests *)

Lemma wf_code_tail rs a rest : wf_code rs (a :: rest) -> wf_code rs rest.
Proof. intros Hwf. inversion Hwf; subst; by constructor. Qed.

Lemma readers_after_other i j a mu :
  j <> i -> j ∈ readers (guard_after i a mu) <-> j ∈ readers mu.
Proof. intros Hne. destruct a; simpl; set_solver. Qed.


Lemma reader_excludes_writer rs s i :
  Inv rs s -> i ∈ readers (guard s) -> writer (guard s) = None.
Proof.
  intros HI Hin. destruct (writer (guard s)) as [j|] eqn:Hw; [|done].
  rewrite (inv_excl _ _ HI _ Hw) in Hin. set_solver.
Qed.

(** A thread that does not hold the exclusive lock steps only while nobody
    holds it. *)
Lemma step_unlocked rs i a rest obs s :
  fires rs i a rest obs s ->
  writing (a :: rest) = false -> writer (guard s) = None.
Proof.
  intros (HI & Hi & Hen) Hw.
  pose proof (inv_code _ _ HI _ _ Hi) as Hwf.
  pose proof (inv_read _ _ HI _ _ Hi) as Hrd.
  pose proof (reader_excludes_writer _ _ i HI) as Hex.
  cbn [code] in Hwf, Hrd.
  inversion Hwf; subst; simpl in Hw, Hrd, Hen; try discriminate.
  - by case_bool_decide.
  - apply Hex. by apply Hrd.
  - apply Hex. by apply Hrd.
  - apply andb_true_iff in Hen as [Hen1 _]. by case_bool_decide.
Qed.

Lemma step_code rs i a rest obs s j tj :
  fires rs i a rest obs s ->
  pool (fire i a rest obs s) !! j = Some tj -> wf_code rs (code tj).
Proof.
  intros (HI & Hi & Hen) Hj.
  apply list_lookup_insert_Some in Hj as [(-> & <- & _) | (? & Hj)].
  - apply (wf_code_tail _ a), (inv_code _ _ HI _ _ Hi).
  - apply (inv_code _ _ HI _ _ Hj).
Qed.

Lemma step_read rs i a rest obs s j tj :
  fires rs i a rest obs s ->
  pool (fire i a rest obs s) !! j = Some tj ->
  reading (code tj) = true <-> j ∈ readers (guard (fire i a rest obs s)).
Proof.
  intros (HI & Hi & Hen) Hj.
  apply list_lookup_insert_Some in Hj as [(-> & <- & _) | (? & Hj)].
  - pose proof (inv_code _ _ HI _ _ Hi) as Hwf.
    pose proof (inv_read _ _ HI _ _ Hi) as Hrd. cbn [code] in Hwf, Hrd.
    unfold fire. inversion Hwf; subst; simpl in Hrd |- *; set_solver.
  - unfold fire. cbn [guard]. rewrite readers_after_other; [|done].
    apply (inv_read _ _ HI _ _ Hj).
Qed.

Lemma step_write rs i a rest obs s j tj :
  fires rs i a rest obs s ->
  pool (fire i a rest obs s) !! j = Some tj ->
  writing (code tj) = true <-> writer (guard (fire i a rest obs s)) = Some j.
Proof.
  intros Hf Hj. pose proof Hf as (HI & Hi & Hen).
  pose proof (inv_code _ _ HI _ _ Hi) as Hwf.
  pose proof (inv_write _ _ HI _ _ Hi) as Hwr. cbn [code] in Hwf, Hwr.
  pose proof (step_unlocked _ _ _ _ _ _ Hf) as Hun.
  apply list_lookup_insert_Some in Hj as [(-> & <- & _) | (Hne & Hj)].
  - unfold fire. inversion Hwf; subst; simpl in Hwr |- *; try done;
      split; by try intros [=].
  - pose proof (inv_write _ _ HI _ _ Hj) as Hj'.
    destruct (writing (a :: rest)) eqn:Hw.
    + assert (writer (guard s) = Some i) as Hwi by (by apply Hwr).
      rewrite Hwi in Hj'. unfold fire.
      inversion Hwf; subst; simpl in Hw |- *; try discriminate;
        rewrite ?Hwi; split; intros H'; try apply Hj' in H'; by simplify_eq.
    + pose proof (Hun eq_refl) as Hnone. rewrite Hnone in Hj'. unfold fire.
      inversion Hwf; subst; simpl in Hw |- *; try discriminate;
        rewrite ?Hnone; split; intros H'; try apply Hj' in H'; by simplify_eq.
Qed.

Lemma step_excl rs i a rest obs s j :
  fires rs i a rest obs s ->
  writer (guard (fire i a rest obs s)) = Some j ->
  readers (guard (fire i a rest obs s)) = ∅.
Proof.
  intros (HI & Hi & Hen). pose proof (inv_excl _ _ HI) as Hex.
  unfold fire. cbn [guard]. destruct a; simpl in Hen |- *; try apply Hex.
  - case_bool_decide as Hw; [|done]. by rewrite Hw.
  - intros Hw. rewrite (Hex _ Hw). set_solver.
  - intros _. apply andb_true_iff in Hen as [_ Hen2]. by case_bool_decide.
  - done.
Qed.

Lemma step_cells rs i a rest obs s k c :
  fires rs i a rest obs s ->
  cells (fire i a rest obs s) !! k = Some c ->
  sound_cell rs (fire i a rest obs s) k c.
Proof.
  intros Hf. pose proof Hf as (HI & Hi & Hen).
  pose proof (inv_code _ _ HI _ _ Hi) as Hwf.
  pose proof (inv_write _ _ HI _ _ Hi) as Hwr. cbn [code] in Hwf, Hwr.
  pose proof (inv_cells _ _ HI) as Hcells.
  pose proof (step_unlocked _ _ _ _ _ _ Hf) as Hun.
  assert (Hlen : (i < length (pool s))%nat) by (by eapply lookup_lt_Some).
  destruct (writing (a :: rest)) eqn:Hw.
  - assert (writer (guard s) = Some i) as Hwi by (by apply Hwr).
    assert (Hold : forall k', cells s !! k' = Some Torn ->
              exists p rest', a :: rest = AStoreEnd k' p :: rest').
    { intros k' Hk'.
      destruct (Hcells _ _ Hk') as (i' & t' & p & rest' & Hw' & Ht' & Hc').
      rewrite Hwi in Hw'. injection Hw' as <-. rewrite Hi in Ht'.
      injection Ht' as <-. simpl in Hc'. eauto. }
    unfold fire. inversion Hwf; subst; simpl in Hw; try discriminate;
      cbn [cells_after cells]; intros Hk.
    + apply lookup_insert_Some in Hk as [[<- <-] | [Hne Hk]].
      * simpl. eexists i, _, p, [AUnlock].
        split; [done|]. split; [by apply list_lookup_insert_eq | done].
      * destruct c as [|q]; [|by apply (Hcells _ _ Hk)].
        destruct (Hold _ Hk) as (? & ? & [=]).
    + apply lookup_insert_Some in Hk as [[<- <-] | [Hne Hk]]; [done|].
      destruct c as [|q]; [|by apply (Hcells _ _ Hk)].
      destruct (Hold _ Hk) as (? & ? & [=]). by subst.
    + destruct c as [|q]; [|by apply (Hcells _ _ Hk)].
      destruct (Hold _ Hk) as (? & ? & [=]).
  - pose proof (Hun eq_refl) as Hnone.
    assert (cells_after a (cells s) = cells s) as Heq
      by (inversion Hwf; subst; simpl in Hw; by try discriminate).
    unfold fire. rewrite Heq. cbn [cells]. intros Hk.
    destruct c as [|q]; [|by apply (Hcells _ _ Hk)].
    destruct (Hcells _ _ Hk) as (i' & t' & p & rest' & Hw' & _). congruence.
Qed.

Lemma step_seen rs i a rest obs s j tj k o :
  fires rs i a rest obs s ->
  pool (fire i a rest obs s) !! j = Some tj -> (k, o) ∈ seen tj ->
  sound_seen rs k o.
Proof.
  intros (HI & Hi & Hen) Hj Hin.
  assert (Hold : (k, o) ∈ obs -> sound_seen rs k o)
    by apply (inv_seen _ _ HI _ _ _ _ Hi).
  pose proof (inv_read _ _ HI _ _ Hi) as Hrd. cbn [code] in Hrd.
  pose proof (reader_excludes_writer _ _ i HI) as Hex.
  apply list_lookup_insert_Some in Hj as [(-> & <- & _) | (? & Hj)];
    [|by apply (inv_seen _ _ HI _ _ _ _ Hj)].
  cbn [seen] in Hin.
  destruct a; simpl in Hin; try by apply Hold.
  apply elem_of_app in Hin as [Hin | Hin]; [by apply Hold|].
  apply list_elem_of_singleton in Hin. injection Hin as -> ->.
  destruct (cells s !! k0) as [[|p]|] eqn:Hk; simpl; [| |done].
  - destruct (inv_cells _ _ HI _ _ Hk) as (i' & t' & p & rest' & Hw' & _).
    rewrite Hex in Hw'; [done|]. by apply Hrd.
  - apply (inv_cells _ _ HI _ _ Hk).
Qed.

Lemma step_inv rs i s : Inv rs s -> Inv rs (step i s).
Proof.
  intros HI. unfold step.
  destruct (pool s !! i) as [[c obs]|] eqn:Hi; [|done].
  destruct c as [|a rest]; [done|]. cbn [code seen].
  destruct (enabled a (guard s)) eqn:Hen; [|done].
  assert (fires rs i a rest obs s) as Hf by done.
  split; intros.
  - by eapply step_code.
  - by eapply step_read.
  - by eapply step_write.
  - by eapply step_excl.
  - by eapply step_cells.
  - by eapply step_seen.
Qed.

Lemma exec_inv rs sched s : Inv rs s -> Inv rs (exec sched s).
Proof.
  revert s. induction sched as [|i sched IH]; intros s HI; [done|].
  simpl. by apply IH, step_inv.
Qed.

Lemma serve_accesses r g :
  log (snd (serve r g)) = (log g ++ log (snd (serve r init)))%list /\
  forall k, MapStore k ∈ log (snd (serve r init)) ->
            products (snd (serve r g)) !! k = products (snd (serve r init)) !! k.
Proof.
  destruct r as [param | param decoded |]; simpl.
  - destruct (rejected_or_accepted param) as [Hrej | (id & H & Hid)].
    + rewrite !(getProduct_rejected _ _ Hrej). simpl. split; [by rewrite app_nil_r|].
      intros k Hk. by apply elem_of_nil in Hk.
    + rewrite !(getProduct_accepted _ _ _ H Hid). simpl. split; [done|].
      intros k Hk. set_solver.
  - destruct (rejected_or_accepted param) as [Hrej | (id & H & Hid)].
    + rewrite !(addProductDetails_rejected _ _ _ Hrej). simpl.
      split; [by rewrite app_nil_r|]. intros k Hk. by apply elem_of_nil in Hk.
    + rewrite !(addProductDetails_accepted _ _ _ _ H Hid).
      destruct decoded as [p|msg];
        [|simpl; split; [by rewrite app_nil_r | intros k Hk; by apply elem_of_nil in Hk]].
      destruct (String.eqb (validateProduct p) "");
        [|simpl; split; [by rewrite app_nil_r | intros k Hk; by apply elem_of_nil in Hk]].
      destruct (ProductID p =? id);
        [|simpl; split; [by rewrite app_nil_r | intros k Hk; by apply elem_of_nil in Hk]].
      simpl. split; [done|]. intros k Hk.
      assert (k = id) as -> by set_solver. by rewrite !lookup_insert_eq.
  - split; [by rewrite app_nil_r|]. intros k Hk. by apply elem_of_nil in Hk.
Qed.

Lemma program_shape rs r :
  r ∈ rs ->
  program r = [] \/
  (exists k, program r = [ARLock; ALoad k; ARUnlock]) \/
  (exists k p, committed rs k p /\
               program r = [ALock; AStoreBegin k; AStoreEnd k p; AUnlock]).
Proof.
  intros Hr. unfold program. destruct r as [param | param decoded |]; simpl.
  - destruct (rejected_or_accepted param) as [Hrej | (id & H & Hid)].
    + rewrite (getProduct_rejected _ _ Hrej). by left.
    + rewrite (getProduct_accepted _ _ _ H Hid). right. left. by exists id.
  - pose proof (addProductDetails_outcome param decoded init) as Hout.
    destruct (addProductDetails param decoded init) as [resp g']. simpl in *.
    destruct Hout as [id p H Hid -> Hv Hp | resp _ _]; [|by left].
    right. right. exists id, p. split.
    + split; [done|]. split; [done|]. by exists param.
    + simpl. by rewrite lookup_insert_eq.
  - by left.
Qed.

Lemma spawn_inv rs : Inv rs (spawn rs).
Proof.
  assert (Hpool : forall i t, pool (spawn rs) !! i = Some t ->
            seen t = [] /\ exists r, r ∈ rs /\ code t = program r).
  { intros i t Hi. unfold spawn, start in Hi. cbn [pool] in Hi.
    rewrite <- list_fmap_compose in Hi.
    apply list_lookup_fmap_Some in Hi as (r & -> & Hr).
    split; [done|]. exists r. split; [|done]. by eapply list_elem_of_lookup_2. }
  split.
  - intros i t Hi. destruct (Hpool _ _ Hi) as (_ & r & Hr & ->).
    destruct (program_shape rs r Hr) as [-> | [(k & ->) | (k & p & Hc & ->)]];
      by constructor.
  - intros i t Hi. destruct (Hpool _ _ Hi) as (_ & r & Hr & ->).
    destruct (program_shape rs r Hr) as [-> | [(k & ->) | (k & p & Hc & ->)]];
      simpl; set_solver.
  - intros i t Hi. destruct (Hpool _ _ Hi) as (_ & r & Hr & ->).
    destruct (program_shape rs r Hr) as [-> | [(k & ->) | (k & p & Hc & ->)]];
      simpl; split; by intros [=].
  - by intros i [=].
  - intros k c Hk. simpl in Hk. by rewrite lookup_empty in Hk.
  - intros i t k o Hi Hin. destruct (Hpool _ _ Hi) as (Hs & _).
    rewrite Hs in Hin. by apply elem_of_nil in Hin.
Qed.

Lemma sound_seen_cases rs k o :
  sound_seen rs k o ->
  o = None \/ exists p, o = Some (Complete p) /\ committed rs k p.
Proof. destruct o as [[|p]|]; simpl; [done | right; eauto | by left]. Qed.

(** C9. Under any interleaving of any number of concurrent Get and Put
    handlers, started together on a fresh process, with the map assignment
    taking two steps between which the slot is torn: every handler takes the
    guard, does one map operation and releases the guard; a reader about to
    load holds the mutex for reading while no writer holds it, and the slot
    it loads is absent or holds a complete record that satisfies the six
    constraints, has the slot's key as [product_id] and was Put by one of
    the requests; a writer about to store holds the mutex alone; and what
    any load has returned is absence or such a record, never a torn one. *)
Theorem concurrent_gets_see_committed_records rs sched i t :
  pool (exec sched (spawn rs)) !! i = Some t ->
  wf_code rs (code t) /\
  (forall k rest, code t = ALoad k :: rest ->
     i ∈ readers (guard (exec sched (spawn rs))) /\
     writer (guard (exec sched (spawn rs))) = None /\
     (cells (exec sched (spawn rs)) !! k = None \/
      exists p, cells (exec sched (spawn rs)) !! k = Some (Complete p) /\
                committed rs k p)) /\
  (forall k rest,
     (code t = AStoreBegin k :: rest \/ exists p, code t = AStoreEnd k p :: rest) ->
     writer (guard (exec sched (spawn rs))) = Some i /\
     readers (guard (exec sched (spawn rs))) = ∅) /\
  (forall k o, (k, o) ∈ seen t ->
     o = None \/ exists p, o = Some (Complete p) /\ committed rs k p).
Proof.
  intros Hi. pose proof (exec_inv rs sched _ (spawn_inv rs)) as HI.
  set (s := exec sched (spawn rs)) in *.
  split; [apply (inv_code _ _ HI _ _ Hi)|]. split; [|split].
  - intros k rest Hc.
    assert (i ∈ readers (guard s)) as Hin
      by (apply (inv_read _ _ HI _ _ Hi); by rewrite Hc).
    pose proof (reader_excludes_writer _ _ _ HI Hin) as Hw.
    split; [done|]. split; [done|].
    apply sound_seen_cases. destruct (cells s !! k) as [[|p]|] eqn:Hk; simpl; [| |done].
    + destruct (inv_cells _ _ HI _ _ Hk) as (? & ? & ? & ? & Hw' & _). congruence.
    + apply (inv_cells _ _ HI _ _ Hk).
  - intros k rest Hc.
    assert (writer (guard s) = Some i) as Hw.
    { apply (inv_write _ _ HI _ _ Hi). by destruct Hc as [-> | (p & ->)]. }
    split; [done|]. by apply (inv_excl _ _ HI i).
  - intros k o Hin. apply sound_seen_cases, (inv_seen _ _ HI _ _ _ _ Hi Hin).
Qed.

Lemma concurrent_gets_see_committed_records_witness :
  (1%nat ∈ readers (guard (exec [0; 0; 0; 0; 1]%nat (spawn rs0))) /\
   writer (guard (exec [0; 0; 0; 0; 1]%nat (spawn rs0))) = None /\
   (cells (exec [0; 0; 0; 0; 1]%nat (spawn rs0)) !! 42 = None \/
    exists p, cells (exec [0; 0; 0; 0; 1]%nat (spawn rs0)) !! 42 = Some (Complete p) /\
              committed rs0 42 p)) /\
  (Some (Complete acme42) = None \/
   exists p, Some (Complete acme42) = Some (Complete p) /\ committed rs0 42 p).
Proof.
  split.
  - assert (pool (exec [0; 0; 0; 0; 1]%nat (spawn rs0)) !! 1%nat
            = Some (mkThread [ALoad 42; ARUnlock] [])) as Hi
      by (vm_compute; reflexivity).
    destruct (concurrent_gets_see_committed_records _ _ _ _ Hi) as (_ & Hload & _).
    apply (Hload 42 [ARUnlock]). reflexivity.
  - assert (pool (exec [0; 0; 1; 0; 0; 1; 1; 1]%nat (spawn rs0)) !! 1%nat
            = Some (mkThread [] [(42, Some (Complete acme42))])) as Hi
      by (vm_compute; reflexivity).
    destruct (concurrent_gets_see_committed_records _ _ _ _ Hi) as (_ & _ & _ & Hseen).
    apply (Hseen 42). simpl. apply list_elem_of_singleton. reflexivity.
Defined.

(** A reader blocked behind the writer sees the committed record. *)
Example reader_after_writer :
  let s := exec [0; 0; 1; 0; 0; 1; 1; 1; 2; 2; 2]%nat (spawn rs0) in
  (seen <$> pool s) = [[]; [(42, Some (Complete acme42))]; [(7, None)]].
Proof. vm_compute. reflexivity. Qed.

(** Without the guard the same requests can show a torn record. *)
Example torn_read_without_guard :
  seen <$> pool (exec [0; 1]%nat (start (unguarded <$> (program <$> rs0))))
  = [[]; [(42, Some Torn)]; []].
Proof. vm_compute. reflexivity. Qed.

(** A reader ahead of the writer sees no entry; the writer waits for it. *)
Example reader_before_writer :
  let s := exec [1; 0; 1; 0; 0; 1; 0; 0; 0; 0; 2; 2; 2]%nat (spawn rs0) in
  (seen <$> pool s) = [[]; [(42, None)]; [(7, None)]] /\
  cells s = {[ 42 := Complete acme42 ]}.
Proof. vm_compute. split; reflexivity. Qed.
